(** * A shallow embedding of [deep_sort/track.py] (deep_sort_realtime)

    Numbers are numpy scalars, kept abstract behind the [Arith] and [Kin]
    classes; the concrete runs read them at IEEE binary64 ([float], Rocq's
    primitive floats, which is what numpy's float64 arrays compute with).

    numpy arrays are mutable objects shared by reference, and the geometry
    queries of [Track] write into the arrays they return.  The arrays the
    code allocates therefore live in an explicit [store]; a [Track] holds
    references ([loc]) to its [mean] array, to its [original_ltwh] array and
    to the trajectory points. *)

From Stdlib Require Import ZArith Lia Floats.
From stdpp Require Import base list.

Open Scope Z_scope.

(** ** Scalar arithmetic *)

(** The element-wise numpy operations the geometry code uses: [+], [-],
    [*], true division [/], floor division [//], and the literals [0] (the
    start of [np.sum]) and [2]. *)
Class Arith (num : Type) := {
  nadd : num -> num -> num;
  nsub : num -> num -> num;
  nmul : num -> num -> num;
  ndiv : num -> num -> num;
  nfloordiv : num -> num -> num;
  nzero : num;
  ntwo : num
}.

(** What the kinematic derivations need besides: [np.sqrt], [np.mean] (whose
    pairwise summation is left abstract), and the literals [1e-07] (slope)
    and [1e-8] (direction). *)
Class Kin (num : Type) := {
  nsqrt : num -> num;
  nmean : list num -> num;
  eps_slope : num;
  eps_dir : num
}.

(** ** The heap of numpy arrays *)

Abbreviation loc := nat (only parsing).
Abbreviation array num := (list num) (only parsing).
Abbreviation store num := (list (list num)) (only parsing).

Section Store.
Context {num : Type}.

(** Reading the array a reference points to (references held by a track are
    always live). *)
Definition load (st : store num) (l : loc) : array num :=
  default [] (st !! l).

(** A freshly allocated array ([.copy()], or the result of a numpy
    expression). *)
Definition alloc (st : store num) (a : array num) : store num * loc :=
  (st ++ [a], length st).

(** An in-place assignment into an existing array. *)
Definition write (st : store num) (l : loc) (a : array num) : store num :=
  <[l := a]> st.

End Store.

(** ** TrackState *)

Inductive TrackState := Tentative | Confirmed | Deleted.

Definition TrackState_eqb (s1 s2 : TrackState) : bool :=
  match s1, s2 with
  | Tentative, Tentative | Confirmed, Confirmed | Deleted, Deleted => true
  | _, _ => false
  end.

(** The enum's values in the source: [Tentative = 1], [Confirmed = 2],
    [Deleted = 3]. *)
Definition TrackState_value (s : TrackState) : Z :=
  match s with Tentative => 1 | Confirmed => 2 | Deleted => 3 end.

(** ** In-place array edits of the geometry code

    Boxes are four-element arrays ([mean[:4]], detection boxes); numpy
    raises on any other shape, which never occurs, and the other shapes are
    left unchanged here. *)

Section Geometry.
Context {num : Type} `{Arith num}.

(** [ret[2] *= ret[3]] *)
Definition mul_aspect (r : array num) : array num :=
  match r with
  | [x; y; a; h] => [x; y; nmul a h; h]
  | _ => r
  end.

(** [ret[:2] -= ret[2:] / 2] *)
Definition sub_half (r : array num) : array num :=
  match r with
  | [x; y; w; h] => [nsub x (ndiv w ntwo); nsub y (ndiv h ntwo); w; h]
  | _ => r
  end.

(** [ret[2:] = ret[:2] + ret[2:]] *)
Definition add_corner (r : array num) : array num :=
  match r with
  | [l; t; w; h] => [l; t; nadd l w; nadd t h]
  | _ => r
  end.

(** [ret[:2] += ret[2:] // 2] *)
Definition add_floor_half (r : array num) : array num :=
  match r with
  | [l; t; w; h] => [nadd l (nfloordiv w ntwo); nadd t (nfloordiv h ntwo); w; h]
  | _ => r
  end.

End Geometry.

(** ** Collaborators and the [Track] object *)

Section TrackDef.
Context {num : Type} `{Arith num}.
(** Opaque payloads: appearance features, the filter's covariance, class
    names, confidences, instance masks and the free-form [others]. *)
Context {feat cov cls conf mask extra : Type}.

(** The motion filter's contract: [kf.predict(mean, covariance)] and
    [kf.update(mean, covariance, measurement_xyah)], each returning a new
    mean array and a new covariance. *)
Record KalmanFilter := {
  kf_predict : array num -> cov -> array num * cov;
  kf_update : array num -> cov -> array num -> array num * cov
}.

(** The attributes of a detection that [Track.update] reads: the array
    [detection.get_ltwh()] returns, [detection.to_xyah()], and the fields
    [feature], [confidence], [class_name], [instance_mask], [others], each of
    which may be [None]. *)
Record Detection := {
  get_ltwh : loc;
  to_xyah : array num;
  feature : option feat;
  confidence : option conf;
  class_name : option cls;
  det_instance_mask : option mask;
  det_others : option extra
}.

(** The attributes of a [Track] instance ([_n_init] and [_max_age] are
    [n_init] and [max_age]). *)
Record Track := mkTrack {
  mean : loc;
  covariance : cov;
  track_id : Z;
  hits : Z;
  age : Z;
  time_since_update : Z;
  state : TrackState;
  features : list (option feat);
  latest_feature : option feat;
  n_init : Z;
  max_age : Z;
  original_ltwh : option loc;
  det_class : option cls;
  det_conf : option conf;
  instance_mask : option mask;
  others : option extra;
  trajectory : list loc
}.

(** [to_center]: [ret = self.original_ltwh.copy(); ret[:2] += ret[2:] // 2;
    return ret[:2]].  With [original_ltwh] [None] the [.copy()] raises
    ([None] here).  The returned view [ret[:2]] is on a copy nothing else
    refers to, so it is allocated as an array of its own. *)
Definition to_center (st : store num) (t : Track) : option (store num * loc) :=
  match original_ltwh t with
  | None => None
  | Some o =>
      let '(st, r) := alloc st (load st o) in
      let st := write st r (add_floor_half (load st r)) in
      Some (alloc st (firstn 2 (load st r)))
  end.

(** [Track.__init__]. *)
Definition init_track (st : store num) (mean0 : loc) (covariance0 : cov)
    (track_id0 n_init0 max_age0 : Z) (feature0 : option feat)
    (original_ltwh0 : option loc) (det_class0 : option cls)
    (det_conf0 : option conf) (instance_mask0 : option mask)
    (others0 : option extra) : store num * Track :=
  let t := mkTrack mean0 covariance0 track_id0 1 1 0 Tentative
             (match feature0 with Some f => [Some f] | None => [] end)
             feature0 n_init0 max_age0 original_ltwh0 det_class0 det_conf0
             instance_mask0 others0 [] in
  match original_ltwh0 with
  | Some _ =>
      match to_center st t with
      | Some (st', c) =>
          (st', mkTrack mean0 covariance0 track_id0 1 1 0 Tentative
                  (features t) feature0 n_init0 max_age0 original_ltwh0
                  det_class0 det_conf0 instance_mask0 others0 [c])
      | None => (st, t)
      end
  | None => (st, t)
  end.

(** The box derived from the filter mean: [ret = self.mean[:4].copy();
    ret[2] *= ret[3]; ret[:2] -= ret[2:] / 2]. *)
Definition kf_ltwh (st : store num) (t : Track) : store num * option loc :=
  let '(st, r) := alloc st (firstn 4 (load st (mean t))) in
  let st := write st r (mul_aspect (load st r)) in
  let st := write st r (sub_half (load st r)) in
  (st, Some r).

(** [to_ltwh(orig, orig_strict)]; [None] is Python's [None]. *)
Definition to_ltwh (st : store num) (t : Track) (orig orig_strict : bool)
    : store num * option loc :=
  if orig then
    match original_ltwh t with
    | None => if orig_strict then (st, None) else kf_ltwh st t
    | Some o => let '(st, r) := alloc st (load st o) in (st, Some r)
    end
  else kf_ltwh st t.

Definition to_tlwh (st : store num) (t : Track) (orig orig_strict : bool)
    : store num * option loc :=
  to_ltwh st t orig orig_strict.

(** [to_ltrb]: [ret = self.to_ltwh(...); if ret is not None:
    ret[2:] = ret[:2] + ret[2:]]. *)
Definition to_ltrb (st : store num) (t : Track) (orig orig_strict : bool)
    : store num * option loc :=
  let '(st, ret) := to_ltwh st t orig orig_strict in
  match ret with
  | Some r => (write st r (add_corner (load st r)), Some r)
  | None => (st, None)
  end.

Definition to_tlbr (st : store num) (t : Track) (orig orig_strict : bool)
    : store num * option loc :=
  to_ltrb st t orig orig_strict.

Definition get_det_conf (t : Track) : option conf := det_conf t.
Definition get_det_class (t : Track) : option cls := det_class t.
Definition get_instance_mask (t : Track) : option mask := instance_mask t.
Definition get_det_supplementary (t : Track) : option extra := others t.
Definition get_feature (t : Track) : option feat := latest_feature t.
Definition get_trajectory (t : Track) : list loc := trajectory t.

Definition is_tentative (t : Track) : bool := TrackState_eqb (state t) Tentative.
Definition is_confirmed (t : Track) : bool := TrackState_eqb (state t) Confirmed.
Definition is_deleted (t : Track) : bool := TrackState_eqb (state t) Deleted.

(** ** Kinematic derivations *)

Section Kinematics.
Context `{Kin num}.

(** [np.sum(v, axis=-1)] over one row. *)
Definition row_sum (v : array num) : num := fold_left nadd v nzero.

(** [trajectory_array[i, j]] for a point of the trajectory (points have two
    coordinates, so the indices used are in range). *)
Definition coord (st : store num) (p : loc) (j : nat) : num :=
  nth j (load st p) nzero.

(** [get_trajectory_slope]. *)
Definition get_trajectory_slope (st : store num) (t : Track) : option num :=
  if (length (trajectory t) <? 2)%nat then None
  else
    let first := default 0%nat (head (trajectory t)) in
    let lastp := default 0%nat (last (trajectory t)) in
    let diff_y := nsub (coord st lastp 1) (coord st first 1) in
    let diff_x := nadd (nsub (coord st lastp 0) (coord st first 0)) eps_slope in
    Some (ndiv diff_y diff_x).

(** [get_velocity(fps)]: the average magnitude, the per-step magnitudes
    ([keepdims] rows of one element, flattened here) and the per-step unit
    directions, or [(None, None, None)]. *)
Definition get_velocity (st : store num) (t : Track) (fps : num)
    : option num * option (list num) * option (list (array num)) :=
  if (length (trajectory t) <? 2)%nat then (None, None, None)
  else
    let rows := map (load st) (trajectory t) in
    let velocity :=
      zip_with (fun b a => map (fun x => nmul x fps) (zip_with nsub b a))
               (tail rows) (removelast rows) in
    let velocity_magnitude :=
      map (fun v => nsqrt (row_sum (map (fun x => nmul x x) v))) velocity in
    let velocity_direction :=
      zip_with (fun v m => map (fun x => ndiv x (nadd m eps_dir)) v)
               velocity velocity_magnitude in
    let average_velocity := nmean velocity_magnitude in
    (Some average_velocity, Some velocity_magnitude, Some velocity_direction).

End Kinematics.

(** ** Lifecycle mutators *)

(** [predict(kf)]. *)
Definition predict (kf : KalmanFilter) (st : store num) (t : Track)
    : store num * Track :=
  let '(m, c) := kf_predict kf (load st (mean t)) (covariance t) in
  let '(st, ml) := alloc st m in
  (st, mkTrack ml c (track_id t) (hits t) (age t + 1)
         (time_since_update t + 1) (state t) (features t) (latest_feature t)
         (n_init t) (max_age t) None (det_class t) None None None
         (trajectory t)).

(** [update(kf, detection)]: the attributes are assigned in the source's
    order; [to_center] reads the freshly assigned [original_ltwh], so it
    always returns a point. *)
Definition update (kf : KalmanFilter) (d : Detection) (st : store num)
    (t : Track) : store num * Track :=
  let '(m, c) := kf_update kf (load st (mean t)) (covariance t) (to_xyah d) in
  let '(st, ml) := alloc st m in
  let t1 := mkTrack ml c (track_id t) (hits t) (age t)
              (time_since_update t) (state t) (features t ++ [feature d])
              (feature d) (n_init t) (max_age t) (Some (get_ltwh d))
              (class_name d) (confidence d) (det_instance_mask d)
              (det_others d) (trajectory t) in
  let '(st, traj) :=
    match to_center st t1 with
    | Some (st', p) => (st', trajectory t ++ [p])
    | None => (st, trajectory t)
    end in
  let hits' := hits t + 1 in
  let state' :=
    if TrackState_eqb (state t) Tentative && (hits' >=? n_init t)
    then Confirmed else state t in
  (st, mkTrack ml c (track_id t) hits' (age t) 0 state' (features t1)
         (latest_feature t1) (n_init t) (max_age t) (original_ltwh t1)
         (det_class t1) (det_conf t1) (instance_mask t1) (others t1) traj).

(** [mark_missed()]: only [state] is assigned. *)
Definition mark_missed (t : Track) : Track :=
  let state' :=
    if TrackState_eqb (state t) Tentative then Deleted
    else if time_since_update t >? max_age t then Deleted
    else state t in
  mkTrack (mean t) (covariance t) (track_id t) (hits t) (age t)
    (time_since_update t) state' (features t) (latest_feature t) (n_init t)
    (max_age t) (original_ltwh t) (det_class t) (det_conf t)
    (instance_mask t) (others t) (trajectory t).

(** The calls the owning tracker makes on a track. *)
Inductive Op :=
  | OpPredict
  | OpUpdate (d : Detection)
  | OpMarkMissed.

Definition step (kf : KalmanFilter) (s : store num * Track) (op : Op)
    : store num * Track :=
  let '(st, t) := s in
  match op with
  | OpPredict => predict kf st t
  | OpUpdate d => update kf d st t
  | OpMarkMissed => (st, mark_missed t)
  end.

Definition run (kf : KalmanFilter) (s : store num * Track) (ops : list Op)
    : store num * Track :=
  fold_left (step kf) ops s.

End TrackDef.

Arguments KalmanFilter num cov : clear implicits.
Arguments Detection num feat cls conf mask extra : clear implicits.
Arguments Track feat cov cls conf mask extra : clear implicits.
Arguments Op num feat cls conf mask extra : clear implicits.

(** ** numpy float64: IEEE binary64 *)

Module Float64.
Local Open Scope float_scope.
#[local] Set Warnings "-inexact-float".

Definition two52 : float := 4503599627370496.

(** [floor] on binary64: below [2^52] in magnitude, adding and subtracting
    [2^52] rounds to an integer, which is then corrected downwards; larger
    values, infinities and NaN are their own floor. *)
Definition float_floor (x : float) : float :=
  if PrimFloat.ltb (PrimFloat.abs x) two52 then
    let r := if PrimFloat.leb 0 x then (x + two52) - two52
             else (x - two52) + two52 in
    if PrimFloat.ltb x r then r - 1 else r
  else x.

(** [a // b] on float64 arrays is [floor(a / b)] (signed zeros aside). *)
#[export] Instance float_arith : Arith float := {
  nadd := PrimFloat.add;
  nsub := PrimFloat.sub;
  nmul := PrimFloat.mul;
  ndiv := PrimFloat.div;
  nfloordiv := fun a b => float_floor (PrimFloat.div a b);
  nzero := 0;
  ntwo := 2
}.

(** [np.mean] as the running sum divided by the count (numpy's pairwise
    summation agrees with it below eight elements). *)
#[export] Instance float_kin : Kin float := {
  nsqrt := PrimFloat.sqrt;
  nmean := fun l => fold_left PrimFloat.add l 0
                    / PrimFloat.of_uint63 (Uint63.of_Z (Z.of_nat (length l)));
  eps_slope := 1e-07;
  eps_dir := 1e-8
}.

End Float64.

(** ** Auxiliary notions used in the statements *)

Section Aux.
Context {num : Type} `{Arith num}.
Context {feat cov cls conf mask extra : Type}.

(** Every attribute of [t'] but [state] is the one of [t]. *)
Definition same_except_state (t t' : Track feat cov cls conf mask extra) : Prop :=
  mean t' = mean t /\ covariance t' = covariance t /\ track_id t' = track_id t
  /\ hits t' = hits t /\ age t' = age t
  /\ time_since_update t' = time_since_update t
  /\ features t' = features t /\ latest_feature t' = latest_feature t
  /\ n_init t' = n_init t /\ max_age t' = max_age t
  /\ original_ltwh t' = original_ltwh t /\ det_class t' = det_class t
  /\ det_conf t' = det_conf t /\ instance_mask t' = instance_mask t
  /\ others t' = others t /\ trajectory t' = trajectory t.

(** The number of [update] calls in a sequence of calls. *)
Fixpoint count_updates (ops : list (Op num feat cls conf mask extra)) : Z :=
  match ops with
  | [] => 0
  | OpUpdate _ :: ops' => 1 + count_updates ops'
  | _ :: ops' => count_updates ops'
  end.

(** The number of [predict] calls in a sequence of calls. *)
Fixpoint count_predicts (ops : list (Op num feat cls conf mask extra)) : Z :=
  match ops with
  | [] => 0
  | OpPredict :: ops' => 1 + count_predicts ops'
  | _ :: ops' => count_predicts ops'
  end.

(** [k] consecutive cycles in which the track is left unmatched: the tracker
    calls [predict] and then [mark_missed]. *)
Fixpoint miss_rounds (k : nat) : list (Op num feat cls conf mask extra) :=
  match k with
  | O => []
  | S k' => miss_rounds k' ++ [OpPredict; OpMarkMissed]
  end.

End Aux.

(** Converting a corner box [(left, top, right, bottom)] back to
    [(left, top, width, height)] by subtracting. *)
Definition ltrb_to_ltwh {num : Type} `{Arith num} (r : array num) : array num :=
  match r with
  | [l; t; r; b] => [l; t; nsub r l; nsub b t]
  | _ => r
  end.

(** ** A concrete configuration: float64 numbers, integer payloads *)

Module Concrete.
Import Float64.
Local Open Scope float_scope.
#[local] Set Warnings "-inexact-float".

Abbreviation TrackC := (Track Z unit Z Z Z Z).
Abbreviation DetC := (Detection float Z Z Z Z Z).
Abbreviation OpC := (Op float Z Z Z Z Z).

(** A filter whose prediction keeps the mean and whose correction moves the
    centre onto the measurement. *)
Definition kf0 : KalmanFilter float unit := {|
  kf_predict := fun m c => (m, c);
  kf_update := fun m c z => (z ++ skipn 4 m, c)
|}.

(** The arrays: a filter mean and a detection box. *)
Definition st0 : store float :=
  [[100.3; 50.0; 0.5; 40.1; 0; 0; 0; 0]; [10; 20; 7; 5]].

Definition det0 (f : option Z) : DetC := {|
  get_ltwh := 1%nat;
  to_xyah := [13.5; 22.5; 1.4; 5];
  feature := f;
  confidence := Some 9%Z;
  class_name := Some 1%Z;
  det_instance_mask := None;
  det_others := None
|}.

(** A track created from the detection box, with [n_init = 3] and
    [max_age = 2]. *)
Definition new0 (feature0 : option Z) : store float * TrackC :=
  init_track st0 0%nat tt 7 3 2 feature0 (Some 1%nat) (Some 1%Z) (Some 9%Z)
    None None.

End Concrete.

(** ** Facts about the store *)

Section StoreFacts.
Context {num : Type}.

Lemma load_alloc (st : store num) (a : array num) :
  load (fst (alloc st a)) (snd (alloc st a)) = a.
Proof.
  unfold load, alloc; cbn [fst snd].
  rewrite lookup_app_r by lia. rewrite Nat.sub_diag. reflexivity.
Qed.

Lemma load_write_eq (st : store num) (l : loc) (a : array num) :
  (l < length st)%nat -> load (write st l a) l = a.
Proof.
  intros Hl. unfold load, write. rewrite list_lookup_insert_eq by lia.
  reflexivity.
Qed.

Lemma length_write (st : store num) (l : loc) (a : array num) :
  length (write st l a) = length st.
Proof. unfold write. apply length_insert. Qed.

(** [st'] keeps every array of [st] as it was. *)
Definition preserves (st st' : store num) : Prop :=
  forall l a, st !! l = Some a -> st' !! l = Some a.

(** The returned array is none of the arrays of [st]. *)
Definition fresh_in (st : store num) (r : option loc) : Prop :=
  forall l, r = Some l -> st !! l = None.

Lemma preserves_refl (st : store num) : preserves st st.
Proof. intros l a H. exact H. Qed.

Lemma preserves_trans (st1 st2 st3 : store num) :
  preserves st1 st2 -> preserves st2 st3 -> preserves st1 st3.
Proof. intros H12 H23 l a H. auto. Qed.

Lemma preserves_alloc (st : store num) (a : array num) :
  preserves st (fst (alloc st a)).
Proof. intros l b H. simpl. rewrite lookup_app_l; [exact H|]. by eapply lookup_lt_Some. Qed.

Lemma preserves_write_fresh (st st' : store num) (r : loc) (a : array num) :
  preserves st st' -> st !! r = None -> preserves st (write st' r a).
Proof.
  intros Hp Hr l b H. unfold write.
  rewrite list_lookup_insert_ne; [by apply Hp|].
  intros ->. congruence.
Qed.

Lemma alloc_fresh (st : store num) (a : array num) :
  st !! snd (alloc st a) = None.
Proof. simpl. apply lookup_ge_None_2. lia. Qed.

Lemma load_app_last (st : store num) (a : array num) :
  load (st ++ [a]) (length st) = a.
Proof. exact (load_alloc st a). Qed.

Lemma load_write_last (st : store num) (a b : array num) :
  load (write (st ++ [a]) (length st) b) (length st) = b.
Proof. apply load_write_eq. rewrite length_app. cbn. lia. Qed.

Lemma lookup_last_fresh (st : store num) :
  st !! length st = None.
Proof. apply lookup_ge_None_2. lia. Qed.

End StoreFacts.

(** ** The effect of each mutator on the counters and the state *)

Section Lifecycle.
Context {num : Type} `{Arith num}.
Context {feat cov cls conf mask extra : Type}.
Local Abbreviation TrackT := (Track feat cov cls conf mask extra).
Local Abbreviation DetT := (Detection num feat cls conf mask extra).
Local Abbreviation KFT := (KalmanFilter num cov).
Local Abbreviation OpT := (Op num feat cls conf mask extra).

Ltac unfold_update :=
  unfold update;
  match goal with |- context [kf_update ?kf ?m ?c ?z] =>
    destruct (kf_update kf m c z) as [? ?] end;
  cbn [alloc fst snd];
  match goal with |- context [to_center ?st ?t] =>
    destruct (to_center st t) as [[? ?]|] end;
  cbn [fst snd state hits features latest_feature time_since_update].

Ltac unfold_predict :=
  unfold predict;
  match goal with |- context [kf_predict ?kf ?m ?c] =>
    destruct (kf_predict kf m c) as [? ?] end;
  cbn [alloc fst snd].

Lemma state_predict (kf : KFT) (st : store num) (t : TrackT) :
  state (snd (predict kf st t)) = state t.
Proof. unfold_predict. reflexivity. Qed.

Lemma hits_predict (kf : KFT) (st : store num) (t : TrackT) :
  hits (snd (predict kf st t)) = hits t.
Proof. unfold_predict. reflexivity. Qed.

Lemma state_update (kf : KFT) (d : DetT) (st : store num) (t : TrackT) :
  state (snd (update kf d st t)) =
  if TrackState_eqb (state t) Tentative && (hits t + 1 >=? n_init t)
  then Confirmed else state t.
Proof. unfold_update; reflexivity. Qed.

Lemma hits_update (kf : KFT) (d : DetT) (st : store num) (t : TrackT) :
  hits (snd (update kf d st t)) = hits t + 1.
Proof. unfold_update; reflexivity. Qed.

Lemma n_init_step (kf : KFT) (s : store num * TrackT) (op : OpT) :
  n_init (snd (step kf s op)) = n_init (snd s).
Proof.
  destruct s as [st t]; destruct op; cbn [step].
  - unfold_predict. reflexivity.
  - unfold_update; reflexivity.
  - reflexivity.
Qed.

Lemma run_app (kf : KFT) (s : store num * TrackT) (ops1 ops2 : list OpT) :
  run kf s (ops1 ++ ops2) = run kf (run kf s ops1) ops2.
Proof. unfold run. apply fold_left_app. Qed.

Lemma state_step_mono (kf : KFT) (s : store num * TrackT) (op : OpT) :
  (TrackState_value (state (snd s)) <= TrackState_value (state (snd (step kf s op))))
  /\ (state (snd s) = Deleted -> state (snd (step kf s op)) = Deleted).
Proof.
  destruct s as [st t]; destruct op; cbn [step snd].
  - rewrite state_predict. split; [lia | auto].
  - rewrite state_update.
    destruct (state t), (hits t + 1 >=? n_init t); cbn; split; (lia || congruence).
  - unfold mark_missed; cbn [state].
    destruct (state t), (time_since_update t >? max_age t); cbn; split; (lia || congruence).
Qed.

Lemma state_run_mono (kf : KFT) (s : store num * TrackT) (ops : list OpT) :
  (TrackState_value (state (snd s)) <= TrackState_value (state (snd (run kf s ops))))
  /\ (state (snd s) = Deleted -> state (snd (run kf s ops)) = Deleted).
Proof.
  revert s. induction ops as [|op ops IH]; intros s; cbn [run fold_left].
  - split; [lia | auto].
  - destruct (state_step_mono kf s op) as [H1 H2].
    destruct (IH (step kf s op)) as [H3 H4]. unfold run in H3, H4.
    split; [lia | auto].
Qed.

Lemma n_init_run (kf : KFT) (s : store num * TrackT) (ops : list OpT) :
  n_init (snd (run kf s ops)) = n_init (snd s).
Proof.
  revert s. induction ops as [|op ops IH]; intros s; [reflexivity|].
  cbn [run fold_left]. unfold run in IH. rewrite IH. apply n_init_step.
Qed.

Lemma count_updates_app (ops : list OpT) (op : OpT) :
  count_updates (ops ++ [op]) =
  count_updates ops + match op with OpUpdate _ => 1 | _ => 0 end.
Proof.
  induction ops as [|o ops IH]; [destruct op; cbn; lia|].
  destruct o; cbn [app count_updates]; rewrite IH; lia.
Qed.

Lemma init_track_fields (st : store num) (m : loc) (c : cov)
    (id ni ma : Z) (f : option feat) (o : option loc) (dc : option cls)
    (dcf : option conf) (im : option mask) (oth : option extra) :
  let t := snd (init_track st m c id ni ma f o dc dcf im oth) in
  state t = Tentative /\ hits t = 1 /\ n_init t = ni.
Proof.
  unfold init_track. destruct o as [o|]; [|cbn; auto].
  match goal with |- context [to_center ?st ?t] =>
    destruct (to_center st t) as [[? ?]|] end; cbn; auto.
Qed.

(** Along the calls made on a fresh track, [hits] counts the updates, and a
    track still Tentative has had every update end below [n_init]. *)
Lemma tentative_inv (kf : KFT) (s0 : store num * TrackT) (ops : list OpT) :
  state (snd s0) = Tentative -> hits (snd s0) = 1 ->
  hits (snd (run kf s0 ops)) = 1 + count_updates ops
  /\ (state (snd (run kf s0 ops)) = Tentative ->
      count_updates ops = 0 \/ hits (snd (run kf s0 ops)) < n_init (snd s0)).
Proof.
  intros Hs Hh. induction ops as [|op ops IH] using rev_ind.
  - cbn. split; [lia | auto].
  - rewrite run_app, count_updates_app. cbn [run fold_left].
    pose proof (n_init_run kf s0 ops) as Hn.
    destruct (run kf s0 ops) as [st t] eqn:Er. cbn [snd] in IH, Hn |- *.
    destruct IH as [IHh IHs]. destruct op; cbn [step].
    + rewrite hits_predict, state_predict. split; [lia|].
      intros Ht. destruct (IHs Ht); [left | right]; lia.
    + rewrite hits_update, state_update. split; [lia|].
      intros E. destruct (state t) eqn:Et; cbn [TrackState_eqb andb] in E;
        [destruct (Z.geb_spec (hits t + 1) (n_init t)) | |];
        try discriminate E.
      right. lia.
    + cbn [snd]. unfold mark_missed; cbn [state hits]. split; [lia|].
      destruct (state t), (time_since_update t >? max_age t); cbn;
        discriminate.
Qed.

(** The filter-derived box is one fresh array. *)
Lemma kf_ltwh_spec (st : store num) (t : TrackT) :
  snd (kf_ltwh st t) = Some (length st)
  /\ load (fst (kf_ltwh st t)) (length st)
     = sub_half (mul_aspect (firstn 4 (load st (mean t))))
  /\ preserves st (fst (kf_ltwh st t))
  /\ length (fst (kf_ltwh st t)) = S (length st).
Proof.
  unfold kf_ltwh, alloc. cbn [fst snd].
  rewrite !load_write_last, load_app_last.
  split; [reflexivity|].
  split; [apply load_write_eq; rewrite length_write, length_app; cbn; lia|].
  split.
  - refine (preserves_write_fresh _ _ _ _ _ (lookup_last_fresh st)).
    refine (preserves_write_fresh _ _ _ _ _ (lookup_last_fresh st)).
    exact (preserves_alloc st _).
  - rewrite !length_write, length_app. cbn. lia.
Qed.

(** [to_ltwh] returns [None] or one fresh array, and keeps every array. *)
Lemma to_ltwh_fresh (st : store num) (t : TrackT) (orig strict : bool) :
  preserves st (fst (to_ltwh st t orig strict))
  /\ (snd (to_ltwh st t orig strict) = None
      \/ (snd (to_ltwh st t orig strict) = Some (length st)
          /\ length (fst (to_ltwh st t orig strict)) = S (length st))).
Proof.
  destruct (kf_ltwh_spec st t) as [Hr [_ [Hp Hl]]].
  unfold to_ltwh. destruct orig; [|split; [exact Hp | right; auto]].
  destruct (original_ltwh t) as [o|].
  - unfold alloc. cbn [fst snd]. split; [apply preserves_alloc|].
    right. split; [reflexivity|]. rewrite length_app. cbn. lia.
  - destruct strict; [|split; [exact Hp | right; auto]].
    split; [apply preserves_refl | left; reflexivity].
Qed.

(** [to_ltrb] writes the corners into the array [to_ltwh] returned. *)
Lemma to_ltrb_spec (st : store num) (t : TrackT) (orig strict : bool) :
  snd (to_ltrb st t orig strict) = snd (to_ltwh st t orig strict)
  /\ (forall r, snd (to_ltwh st t orig strict) = Some r ->
      fst (to_ltrb st t orig strict)
      = write (fst (to_ltwh st t orig strict)) r
          (add_corner (load (fst (to_ltwh st t orig strict)) r)))
  /\ (snd (to_ltwh st t orig strict) = None ->
      fst (to_ltrb st t orig strict) = fst (to_ltwh st t orig strict)).
Proof.
  unfold to_ltrb. destruct (to_ltwh st t orig strict) as [st1 [r|]]; cbn [fst snd].
  - split; [reflexivity|]. split; [|discriminate].
    intros r' E. injection E as <-. reflexivity.
  - split; [reflexivity|]. split; [discriminate | reflexivity].
Qed.

Lemma to_ltrb_fresh (st : store num) (t : TrackT) (orig strict : bool) :
  preserves st (fst (to_ltrb st t orig strict))
  /\ (snd (to_ltrb st t orig strict) = None
      \/ snd (to_ltrb st t orig strict) = Some (length st)).
Proof.
  destruct (to_ltrb_spec st t orig strict) as [Hs [Hw Hn]].
  destruct (to_ltwh_fresh st t orig strict) as [Hp [HN | [HS _]]].
  - rewrite Hs, (Hn HN). split; [exact Hp | left; exact HN].
  - rewrite Hs, (Hw _ HS). split; [|right; exact HS].
    apply preserves_write_fresh; [exact Hp | apply lookup_last_fresh].
Qed.

(** [to_center] allocates the copy and then the returned point. *)
Lemma to_center_spec (st : store num) (t : TrackT) (o : loc) :
  original_ltwh t = Some o ->
  exists st' p, to_center st t = Some (st', p)
  /\ p = S (length st)
  /\ load st' p = take 2 (add_floor_half (load st o))
  /\ preserves st st'.
Proof.
  intros Ho. unfold to_center. rewrite Ho. unfold alloc. cbn [fst snd].
  eexists _, _. split; [reflexivity|].
  rewrite length_write, length_app. cbn [length]. split; [lia|].
  split.
  - replace (length st + 1)%nat with (length (write (st ++ [load st o]) (length st)
      (add_floor_half (load (st ++ [load st o]) (length st))))).
    + rewrite load_app_last, !load_app_last, load_write_last. reflexivity.
    + rewrite length_write, length_app. reflexivity.
  - apply (preserves_trans _ (write (st ++ [load st o]) (length st)
             (add_floor_half (load (st ++ [load st o]) (length st))))).
    + apply preserves_write_fresh; [apply (preserves_alloc st) | apply lookup_last_fresh].
    + apply preserves_alloc.
Qed.

End Lifecycle.

(** * The claims *)

Section Claims.
Context {num : Type} `{Arith num}.
Context {feat cov cls conf mask extra : Type}.
Local Abbreviation TrackT := (Track feat cov cls conf mask extra).
Local Abbreviation DetT := (Detection num feat cls conf mask extra).
Local Abbreviation KFT := (KalmanFilter num cov).
Local Abbreviation OpT := (Op num feat cls conf mask extra).

(** C1: along any finite sequence of [predict]/[update]/[mark_missed] calls
    the state never moves backwards in the order Tentative < Confirmed <
    Deleted (the enum values 1, 2, 3): at any point of the sequence, the
    state later on is at least the state now; and once it is [Deleted], it
    stays [Deleted]. *)
Theorem state_forward_only (kf : KFT) (s : store num * TrackT)
    (ops1 ops2 : list OpT) :
  TrackState_value (state (snd (run kf s ops1)))
    <= TrackState_value (state (snd (run kf s (ops1 ++ ops2))))
  /\ (state (snd (run kf s ops1)) = Deleted ->
      state (snd (run kf s (ops1 ++ ops2))) = Deleted).
Proof. rewrite run_app. apply state_run_mono. Qed.

(** C3: [mark_missed] deletes a Tentative track whatever its age; it
    deletes a Confirmed track exactly when [time_since_update > max_age]
    and otherwise leaves it Confirmed; it assigns no attribute but
    [state]. *)
Theorem mark_missed_spec (t : TrackT) :
  (state t = Tentative -> state (mark_missed t) = Deleted)
  /\ (state t = Confirmed ->
      (state (mark_missed t) = Deleted <-> time_since_update t > max_age t))
  /\ (state t = Confirmed -> time_since_update t <= max_age t ->
      state (mark_missed t) = Confirmed)
  /\ same_except_state t (mark_missed t).
Proof.
  unfold mark_missed; cbn [state time_since_update max_age].
  split; [|split; [|split]].
  - intros ->. reflexivity.
  - intros ->. cbn. destruct (Z.gtb_spec (time_since_update t) (max_age t)).
    + split; [lia | reflexivity].
    + split; [discriminate | lia].
  - intros -> Hle. cbn. destruct (Z.gtb_spec (time_since_update t) (max_age t));
      [lia | reflexivity].
  - repeat split.
Qed.

(** C5: [predict] adds one to [age] and to [time_since_update], sets
    [original_ltwh], [det_conf], [instance_mask] and [others] to [None], and
    keeps [state], [hits], [features], [trajectory] and [det_class]. *)
Theorem predict_effect (kf : KFT) (st : store num) (t : TrackT) :
  let t' := snd (predict kf st t) in
  age t' = age t + 1 /\ time_since_update t' = time_since_update t + 1
  /\ original_ltwh t' = None /\ det_conf t' = None
  /\ instance_mask t' = None /\ others t' = None
  /\ state t' = state t /\ hits t' = hits t /\ features t' = features t
  /\ trajectory t' = trajectory t /\ det_class t' = det_class t.
Proof.
  unfold predict. destruct (kf_predict kf (load st (mean t)) (covariance t)).
  cbn. repeat split.
Qed.

(** C2 (as amended): on a track created by [__init__], the state becomes
    Confirmed exactly on the first [update] call made while the track is
    still Tentative whose post-increment [hits] is at least [n_init]: a
    call from a non-Confirmed state yields Confirmed iff it is an [update]
    on a Tentative track with [hits + 1 >= n_init]; when it does, every
    earlier update (there were [hits - 1] of them) ended below [n_init],
    and for [n_init >= 2] the new [hits] equals [n_init].  A track that is
    Deleted (e.g. missed once while Tentative) is never confirmed. *)
Theorem confirm_on_first_reaching_update (kf : KFT) (st0 : store num)
    (m : loc) (c : cov) (id ni ma : Z) (f : option feat) (o : option loc)
    (dc : option cls) (dcf : option conf) (im : option mask)
    (oth : option extra) (ops : list OpT) (op : OpT) :
  let s := run kf (init_track st0 m c id ni ma f o dc dcf im oth) ops in
  let s' := step kf s op in
  state (snd s) <> Confirmed ->
  (state (snd s') = Confirmed <->
     (exists d, op = OpUpdate d) /\ state (snd s) = Tentative
     /\ ni <= hits (snd s) + 1)
  /\ (state (snd s') = Confirmed ->
      hits (snd s') = hits (snd s) + 1
      /\ hits (snd s) = 1 + count_updates ops
      /\ (count_updates ops = 0 \/ hits (snd s) < ni)
      /\ (2 <= ni -> hits (snd s') = ni)).
Proof.
  intros s s' Hnc.
  pose proof (init_track_fields st0 m c id ni ma f o dc dcf im oth)
    as [Hs0 [Hh0 Hn0]].
  pose proof (tentative_inv kf _ ops Hs0 Hh0) as [Hh Hinv].
  pose proof (n_init_run kf (init_track st0 m c id ni ma f o dc dcf im oth) ops)
    as Hn.
  fold s in Hh, Hinv, Hn. rewrite Hn0 in Hinv, Hn.
  unfold s' in *. clearbody s. destruct s as [st t]. cbn [snd] in *.
  assert (Hiff : state (snd (step kf (st, t) op)) = Confirmed <->
            (exists d, op = OpUpdate d) /\ state t = Tentative
            /\ ni <= hits t + 1).
  { destruct op as [|d|]; cbn [step].
    - rewrite state_predict. split; [intros E; contradiction|].
      intros [[d E] _]. discriminate.
    - rewrite state_update, Hn. destruct (state t) eqn:Et; cbn [TrackState_eqb andb].
      + destruct (Z.geb_spec (hits t + 1) ni).
        * split; [intros _; eauto | reflexivity].
        * split; [discriminate | lia].
      + contradiction.
      + split; [discriminate | intros [_ [E _]]; discriminate].
    - cbn [snd]. unfold mark_missed; cbn [state].
      split; [|intros [[d E] _]; discriminate].
      destruct (state t) eqn:Et; [| contradiction |];
        destruct (time_since_update t >? max_age t); cbn;
        intros E; discriminate E. }
  split; [exact Hiff|].
  intros Hc. apply Hiff in Hc as [[d ->] [Ht Hge]].
  cbn [step]. rewrite hits_update.
  destruct (Hinv Ht) as [H0 | Hlt].
  - repeat split; lia.
  - repeat split; lia.
Qed.

(** C6: with [orig=True, orig_strict=True] and no [original_ltwh],
    [to_ltwh] returns [None] (allocating nothing) and so does [to_ltrb];
    with [orig_strict=False] it returns the filter-derived box, the one of
    [orig=False]: width [a*h], top-left the centre minus half the width and
    height. [to_ltrb] follows the same [orig]/[orig_strict] choice: it
    returns [None] exactly when [to_ltwh] does, otherwise the corner form
    of the box [to_ltwh] returns; with no [original_ltwh] and
    [orig_strict=False] it gives the corners of the filter-derived box, as
    [orig=False] does; with an [original_ltwh] and [orig=True] it gives
    the corners of the original box, whatever [orig_strict] is. *)
Theorem to_ltwh_orig_strict (st : store num) (t : TrackT) :
  (original_ltwh t = None ->
     to_ltwh st t true true = (st, None) /\ to_ltrb st t true true = (st, None))
  /\ (original_ltwh t = None ->
      to_ltwh st t true false = to_ltwh st t false false)
  /\ (forall x y a h rest, load st (mean t) = x :: y :: a :: h :: rest ->
      snd (to_ltwh st t false false) = Some (length st)
      /\ load (fst (to_ltwh st t false false)) (length st)
         = [nsub x (ndiv (nmul a h) ntwo); nsub y (ndiv h ntwo); nmul a h; h])
  /\ (forall orig strict,
      snd (to_ltrb st t orig strict) = snd (to_ltwh st t orig strict)
      /\ (forall r, snd (to_ltwh st t orig strict) = Some r ->
          load (fst (to_ltrb st t orig strict)) r
          = add_corner (load (fst (to_ltwh st t orig strict)) r)))
  /\ (original_ltwh t = None ->
      to_ltrb st t true false = to_ltrb st t false false)
  /\ (forall x y a h rest, load st (mean t) = x :: y :: a :: h :: rest ->
      snd (to_ltrb st t false false) = Some (length st)
      /\ load (fst (to_ltrb st t false false)) (length st)
         = [nsub x (ndiv (nmul a h) ntwo); nsub y (ndiv h ntwo);
            nadd (nsub x (ndiv (nmul a h) ntwo)) (nmul a h);
            nadd (nsub y (ndiv h ntwo)) h])
  /\ (forall o strict, original_ltwh t = Some o ->
      snd (to_ltrb st t true strict) = Some (length st)
      /\ load (fst (to_ltrb st t true strict)) (length st)
         = add_corner (load st o)).
Proof.
  assert (Hc : forall orig strict,
      snd (to_ltrb st t orig strict) = snd (to_ltwh st t orig strict)
      /\ (forall r, snd (to_ltwh st t orig strict) = Some r ->
          load (fst (to_ltrb st t orig strict)) r
          = add_corner (load (fst (to_ltwh st t orig strict)) r))).
  { intros orig strict.
    destruct (to_ltrb_spec st t orig strict) as [Hs [Hw _]].
    destruct (to_ltwh_fresh st t orig strict) as [_ Hf].
    split; [exact Hs|]. intros r Hr. rewrite (Hw r Hr).
    apply load_write_eq.
    destruct Hf as [Hn | [Hl Hlen]]; [congruence|].
    rewrite Hr in Hl. injection Hl as ->. lia. }
  assert (Hkf : forall x y a h rest, load st (mean t) = x :: y :: a :: h :: rest ->
      snd (to_ltwh st t false false) = Some (length st)
      /\ load (fst (to_ltwh st t false false)) (length st)
         = [nsub x (ndiv (nmul a h) ntwo); nsub y (ndiv h ntwo); nmul a h; h]).
  { intros x y a h rest Hm. destruct (kf_ltwh_spec st t) as [Hr [Hv _]].
    unfold to_ltwh. split; [exact Hr|]. rewrite Hv, Hm. reflexivity. }
  split; [|split; [|split; [exact Hkf|split; [exact Hc|split; [|split]]]]].
  - intros Ho. unfold to_ltrb, to_ltwh. rewrite Ho. split; reflexivity.
  - intros Ho. unfold to_ltwh. rewrite Ho. reflexivity.
  - intros Ho. unfold to_ltrb, to_ltwh. rewrite Ho. reflexivity.
  - intros x y a h rest Hm. destruct (Hkf x y a h rest Hm) as [Hr Hv].
    destruct (Hc false false) as [Hs Hl].
    split; [congruence|]. rewrite (Hl _ Hr), Hv. reflexivity.
  - intros o strict Ho.
    assert (Hr : snd (to_ltwh st t true strict) = Some (length st))
      by (unfold to_ltwh; rewrite Ho; reflexivity).
    destruct (Hc true strict) as [Hs Hl].
    split; [congruence|]. rewrite (Hl _ Hr).
    unfold to_ltwh. rewrite Ho. unfold alloc. cbn [fst].
    rewrite load_app_last. reflexivity.
Qed.

(** C8 (as amended): the corner form is [(l, t, l+w, t+h)] for the box
    [(l, t, w, h)] that [to_ltwh] returns, whatever its source; converting
    back by subtracting gives [(l, t, (l+w)-l, (t+h)-t)]: left and top come
    back exactly, width and height come back exactly when [(l+w)-l = w] and
    [(t+h)-t = h], which binary64 rounding does not always give. *)
Theorem ltrb_roundtrip (st : store num) (t : TrackT) (orig strict : bool)
    (r : loc) (l tp w h : num) :
  snd (to_ltwh st t orig strict) = Some r ->
  load (fst (to_ltwh st t orig strict)) r = [l; tp; w; h] ->
  snd (to_ltrb st t orig strict) = Some r
  /\ load (fst (to_ltrb st t orig strict)) r = [l; tp; nadd l w; nadd tp h]
  /\ ltrb_to_ltwh (load (fst (to_ltrb st t orig strict)) r)
     = [l; tp; nsub (nadd l w) l; nsub (nadd tp h) tp]
  /\ (nsub (nadd l w) l = w -> nsub (nadd tp h) tp = h ->
      ltrb_to_ltwh (load (fst (to_ltrb st t orig strict)) r)
      = load (fst (to_ltwh st t orig strict)) r).
Proof.
  intros Hr Hb.
  destruct (to_ltrb_spec st t orig strict) as [Hs [Hw _]].
  destruct (to_ltwh_fresh st t orig strict) as [_ [HN | [HS Hlen]]];
    [congruence|].
  rewrite HS in Hr. injection Hr as <-.
  assert (Hv : load (fst (to_ltrb st t orig strict)) (length st)
               = [l; tp; nadd l w; nadd tp h]).
  { rewrite (Hw _ HS), load_write_eq by lia. rewrite Hb. reflexivity. }
  rewrite Hs, HS, Hv, Hb. cbn [ltrb_to_ltwh].
  split; [reflexivity|]. split; [reflexivity|]. split; [reflexivity|].
  intros E1 E2. rewrite E1, E2. reflexivity.
Qed.

(** C9: the geometry queries leave every existing array as it was (in
    particular the track's [mean] and [original_ltwh] arrays) and return
    [None] or an array that did not exist before the call; [to_ltrb]'s
    in-place corner arithmetic writes only into that new array.  No query
    returns a new [Track], so the track's attributes are untouched too. *)
Theorem queries_no_mutation (st : store num) (t : TrackT) (orig strict : bool) :
  preserves st (fst (to_ltwh st t orig strict))
  /\ fresh_in st (snd (to_ltwh st t orig strict))
  /\ preserves st (fst (to_tlwh st t orig strict))
  /\ fresh_in st (snd (to_tlwh st t orig strict))
  /\ preserves st (fst (to_ltrb st t orig strict))
  /\ fresh_in st (snd (to_ltrb st t orig strict))
  /\ preserves st (fst (to_tlbr st t orig strict))
  /\ fresh_in st (snd (to_tlbr st t orig strict))
  /\ match to_center st t with
     | Some (st', p) => preserves st st' /\ st !! p = None
     | None => True
     end.
Proof.
  assert (Hfr : forall r, r = None \/ r = Some (length st) -> fresh_in st r).
  { intros r [-> | ->] l E; [discriminate|]. injection E as <-.
    apply lookup_last_fresh. }
  destruct (to_ltwh_fresh st t orig strict) as [Hp1 Hr1].
  destruct (to_ltrb_fresh st t orig strict) as [Hp2 Hr2].
  assert (Hr1' : snd (to_ltwh st t orig strict) = None
                 \/ snd (to_ltwh st t orig strict) = Some (length st))
    by (destruct Hr1 as [? | [? _]]; auto).
  unfold to_tlwh, to_tlbr.
  repeat split; try assumption; try (apply Hfr; assumption).
  destruct (original_ltwh t) as [o|] eqn:Ho.
  - destruct (to_center_spec st t o Ho) as [st' [p [E [Hp [_ Hpr]]]]].
    rewrite E. split; [exact Hpr|]. apply lookup_ge_None_2. lia.
  - unfold to_center. rewrite Ho. exact I.
Qed.

(** C10: a track built with an [original_ltwh] box [(l, t, w, h)] starts
    with the single trajectory point [(l + w // 2, t + h // 2)]; a track
    built without one starts with an empty trajectory. *)
Theorem init_trajectory (st : store num) (m : loc) (c : cov) (id ni ma : Z)
    (f : option feat) (o : option loc) (dc : option cls) (dcf : option conf)
    (im : option mask) (oth : option extra) :
  (forall ob l tp w h, o = Some ob -> load st ob = [l; tp; w; h] ->
     exists p,
       trajectory (snd (init_track st m c id ni ma f o dc dcf im oth)) = [p]
       /\ load (fst (init_track st m c id ni ma f o dc dcf im oth)) p
          = [nadd l (nfloordiv w ntwo); nadd tp (nfloordiv h ntwo)])
  /\ (o = None ->
      trajectory (snd (init_track st m c id ni ma f o dc dcf im oth)) = []).
Proof.
  split.
  - intros ob l tp w h -> Hb. unfold init_track.
    match goal with |- context [to_center st ?t0] =>
      destruct (to_center_spec st t0 ob eq_refl) as [st' [p [E [_ [Hv _]]]]] end.
    rewrite E. exists p. cbn [fst snd trajectory]. split; [reflexivity|].
    rewrite Hv, Hb. reflexivity.
  - intros ->. reflexivity.
Qed.

Section Kinematic_claims.
Context `{Kin num}.

(** C7: with fewer than two trajectory points [get_trajectory_slope]
    returns [None] and [get_velocity] returns [(None, None, None)]; with at
    least two, the slope is [(last_y - first_y) / (last_x - first_x + 1e-07)]
    and reads the first and the last point only. *)
Theorem slope_velocity_spec (st : store num) (t : TrackT) (fps : num) :
  ((length (trajectory t) < 2)%nat ->
     get_trajectory_slope st t = None
     /\ get_velocity st t fps = (None, None, None))
  /\ (forall p0 mid pl, trajectory t = p0 :: mid ++ [pl] ->
      get_trajectory_slope st t
      = Some (ndiv (nsub (coord st pl 1) (coord st p0 1))
                   (nadd (nsub (coord st pl 0) (coord st p0 0)) eps_slope))).
Proof.
  split.
  - intros Hl. unfold get_trajectory_slope, get_velocity.
    apply Nat.ltb_lt in Hl. rewrite Hl. split; reflexivity.
  - intros p0 mid pl Ht. unfold get_trajectory_slope. rewrite Ht.
    assert (Hl : (length (p0 :: mid ++ [pl]) <? 2)%nat = false).
    { apply Nat.ltb_ge. cbn [length]. rewrite length_app. cbn. lia. }
    rewrite Hl. rewrite app_comm_cons, last_snoc. reflexivity.
Qed.

End Kinematic_claims.

End Claims.

(** * The claims at concrete inputs *)

Import Float64 Concrete.
#[local] Set Warnings "-inexact-float".

(** A track confirmed by two updates ([hits] reaches [n_init = 3]). *)
Definition confirmed0 : store float * TrackC :=
  run kf0 (new0 None) [OpUpdate (det0 None); OpUpdate (det0 None)].

(** C1 at a track missed once while Tentative, then updated. *)
Lemma state_forward_only_witness :
  state (snd (run kf0 (new0 None) [OpMarkMissed])) = Deleted
  /\ state (snd (run kf0 (new0 None) ([OpMarkMissed] ++ [OpUpdate (det0 None)])))
     = Deleted.
Proof.
  destruct (state_forward_only kf0 (new0 None) [OpMarkMissed]
              [OpUpdate (det0 None)]) as [_ Habs].
  assert (E : state (snd (run kf0 (new0 None) [OpMarkMissed])) = Deleted)
    by (vm_compute; reflexivity).
  split; [exact E | exact (Habs E)].
Defined.

(** C3 at a Confirmed track with [time_since_update = 0 <= max_age = 2]. *)
Lemma mark_missed_spec_witness :
  state (snd confirmed0) = Confirmed
  /\ state (mark_missed (snd confirmed0)) = Confirmed.
Proof.
  destruct (mark_missed_spec (snd confirmed0)) as [_ [_ [Hkeep _]]].
  assert (E : state (snd confirmed0) = Confirmed) by (vm_compute; reflexivity).
  split; [exact E|]. apply Hkeep; [exact E|]. vm_compute. discriminate.
Defined.

(** C2 at the second update of a fresh track with [n_init = 3]. *)
Lemma confirm_on_first_reaching_update_witness :
  state (snd (run kf0 (new0 None) [OpUpdate (det0 None)])) <> Confirmed
  /\ hits (snd (step kf0 (run kf0 (new0 None) [OpUpdate (det0 None)])
                 (OpUpdate (det0 None)))) = 3%Z.
Proof.
  assert (E : state (snd (run kf0 (new0 None) [OpUpdate (det0 None)]))
              <> Confirmed) by (vm_compute; discriminate).
  split; [exact E|].
  destruct (confirm_on_first_reaching_update kf0 st0 0%nat tt 7 3 2 None
              (Some 1%nat) (Some 1%Z) (Some 9%Z) None None
              [OpUpdate (det0 None)] (OpUpdate (det0 None)) E) as [Hiff Hfirst].
  assert (C : state (snd (step kf0 (run kf0 (new0 None) [OpUpdate (det0 None)])
                            (OpUpdate (det0 None)))) = Confirmed).
  { apply Hiff. split; [eexists; reflexivity|]. vm_compute. split; [reflexivity|].
    discriminate. }
  destruct (Hfirst C) as [_ [_ [_ Hn]]]. apply Hn. lia.
Defined.

(** C2 as first stated fails: a track missed once while Tentative is
    Deleted; two updates later its [hits] first reaches [n_init = 3] and it
    is still not Confirmed. *)
Lemma confirm_counterexample :
  let s := run kf0 (new0 None) [OpMarkMissed; OpUpdate (det0 None)] in
  let s' := step kf0 s (OpUpdate (det0 None)) in
  hits (snd s) = 2%Z /\ hits (snd s') = 3%Z /\ n_init (snd s') = 3%Z
  /\ state (snd s') = Deleted.
Proof. vm_compute. repeat split. Qed.

(** C4: [update] with a detection whose [feature] is [None] appends [None]
    to [features] and sets [latest_feature] to [None], whereas [__init__]
    skips a [None] feature: here the track created with feature [5] ends
    with [features = [5; None]] and [latest_feature = None]. *)
Lemma update_absent_feature :
  features (snd (new0 (Some 5%Z))) = [Some 5%Z]
  /\ latest_feature (snd (new0 (Some 5%Z))) = Some 5%Z
  /\ features (snd (new0 None)) = []
  /\ let s := step kf0 (new0 (Some 5%Z)) (OpUpdate (det0 None)) in
     features (snd s) = [Some 5%Z; None] /\ latest_feature (snd s) = None
     /\ hits (snd s) = 2%Z.
Proof. vm_compute. repeat split. Qed.

(** A track after a [predict] with no update: no [original_ltwh]. *)
Definition predicted0 : store float * TrackC :=
  step kf0 (new0 None) OpPredict.

(** C6 at [predicted0], whose mean is [(100.3, 50.0, 0.5, 40.1, 0, 0, 0, 0)]. *)
Lemma to_ltwh_orig_strict_witness :
  to_ltwh (fst predicted0) (snd predicted0) true true = (fst predicted0, None)
  /\ to_ltwh (fst predicted0) (snd predicted0) true false
     = to_ltwh (fst predicted0) (snd predicted0) false false
  /\ load (fst (to_ltwh (fst predicted0) (snd predicted0) false false))
       (length (fst predicted0))
     = [100.3 - 0.5 * 40.1 / 2; 50.0 - 40.1 / 2; 0.5 * 40.1; 40.1]%float
  /\ to_ltrb (fst predicted0) (snd predicted0) true false
     = to_ltrb (fst predicted0) (snd predicted0) false false.
Proof.
  destruct (to_ltwh_orig_strict (fst predicted0) (snd predicted0))
    as [H1 [H2 [H3 [_ [H5 _]]]]].
  assert (Ho : original_ltwh (snd predicted0) = None) by reflexivity.
  split; [exact (proj1 (H1 Ho))|]. split; [exact (H2 Ho)|].
  split; [|exact (H5 Ho)].
  refine (proj2 (H3 _ _ _ _ [0; 0; 0; 0]%float _)).
  vm_compute. reflexivity.
Defined.

(** C8 as first stated fails at the filter-derived box of [new0]: its width
    [0.5 * 40.1 = 20.05] comes back from the corner form as
    [20.049999999999997] (binary64, as numpy computes). *)
Lemma ltrb_roundtrip_counterexample :
  snd (to_ltwh (fst (new0 None)) (snd (new0 None)) false false) = Some 4%nat
  /\ ltrb_to_ltwh (load (fst (to_ltrb (fst (new0 None)) (snd (new0 None))
                                  false false)) 4)
     <> load (fst (to_ltwh (fst (new0 None)) (snd (new0 None)) false false)) 4.
Proof.
  split; [vm_compute; reflexivity|].
  intros E.
  pose proof (f_equal (fun b => PrimFloat.eqb (nth 2 b 0%float) 20.05%float) E)
    as E2.
  vm_compute in E2. discriminate E2.
Qed.

(** C8 (amended) at the original box [(10, 20, 7, 5)] of [new0], where the
    additions are exact. *)
Lemma ltrb_roundtrip_witness :
  ltrb_to_ltwh (load (fst (to_ltrb (fst (new0 None)) (snd (new0 None))
                                true false)) 4)
  = load (fst (to_ltwh (fst (new0 None)) (snd (new0 None)) true false)) 4.
Proof.
  refine (proj2 (proj2 (proj2 (ltrb_roundtrip (fst (new0 None)) (snd (new0 None))
            true false 4 10%float 20%float 7%float 5%float _ _)))
          _ _); vm_compute; reflexivity.
Defined.

(** C10 at [new0]: the box [(10, 20, 7, 5)] gives the point
    [(10 + 7 // 2, 20 + 5 // 2)]. *)
Lemma init_trajectory_witness :
  exists p, trajectory (snd (new0 None)) = [p]
  /\ load (fst (new0 None)) p
     = [nadd 10 (nfloordiv 7 ntwo); nadd 20 (nfloordiv 5 ntwo)]%float.
Proof.
  destruct (@init_trajectory float _ Z unit Z Z Z Z st0 0%nat tt 7 3 2 None
              (Some 1%nat) (Some 1%Z) (Some 9%Z) None None) as [H _].
  apply (H 1%nat); reflexivity.
Defined.

(** C7 at [confirmed0], whose trajectory has the three points at [3], [6]
    and [9]. *)
Lemma slope_velocity_spec_witness :
  get_trajectory_slope (fst confirmed0) (snd confirmed0)
  = Some (ndiv (nsub (coord (fst confirmed0) 9 1) (coord (fst confirmed0) 3 1))
               (nadd (nsub (coord (fst confirmed0) 9 0)
                           (coord (fst confirmed0) 3 0)) eps_slope)).
Proof.
  destruct (slope_velocity_spec (fst confirmed0) (snd confirmed0) 5%float)
    as [_ H].
  apply (H 3%nat [6%nat] 9%nat). vm_compute. reflexivity.
Defined.

(** * Further properties of [track.py] *)

Section MoreFacts.
Context {num : Type} `{Arith num}.
Context {feat cov cls conf mask extra : Type}.
Local Abbreviation TrackT := (Track feat cov cls conf mask extra).
Local Abbreviation DetT := (Detection num feat cls conf mask extra).
Local Abbreviation KFT := (KalmanFilter num cov).
Local Abbreviation OpT := (Op num feat cls conf mask extra).

Lemma load_app_l (st : store num) (xs : store num) (l : loc) :
  (l < length st)%nat -> load (st ++ xs) l = load st l.
Proof. intros Hl. unfold load. rewrite lookup_app_l by exact Hl. reflexivity. Qed.

Lemma preserves_load (st st' : store num) (l : loc) :
  preserves st st' -> (l < length st)%nat -> load st' l = load st l.
Proof.
  intros Hp Hl. unfold load.
  destruct (lookup_lt_is_Some_2 st l Hl) as [a Ha].
  rewrite Ha, (Hp _ _ Ha). reflexivity.
Qed.

Lemma preserves_length (st st' : store num) :
  preserves st st' -> (length st <= length st')%nat.
Proof.
  intros Hp. destruct (length st) as [|n] eqn:E; [lia|].
  destruct (lookup_lt_is_Some_2 st n) as [a Ha]; [lia|].
  apply Hp in Ha. apply lookup_lt_Some in Ha. lia.
Qed.

(** Everything [update] does, read off its body. *)
Lemma update_spec (kf : KFT) (d : DetT) (st : store num) (t : TrackT) :
  (get_ltwh d < length st)%nat ->
  let st' := fst (update kf d st t) in
  let t' := snd (update kf d st t) in
  hits t' = hits t + 1 /\ time_since_update t' = 0 /\ age t' = age t
  /\ features t' = features t ++ [feature d] /\ latest_feature t' = feature d
  /\ original_ltwh t' = Some (get_ltwh d) /\ det_class t' = class_name d
  /\ det_conf t' = confidence d /\ instance_mask t' = det_instance_mask d
  /\ others t' = det_others d
  /\ (exists p, trajectory t' = trajectory t ++ [p]
        /\ load st' p = take 2 (add_floor_half (load st (get_ltwh d))))
  /\ mean t' = length st
  /\ load st' (mean t')
     = fst (kf_update kf (load st (mean t)) (covariance t) (to_xyah d))
  /\ preserves st st'.
Proof.
  intros Hl. unfold update.
  destruct (kf_update kf (load st (mean t)) (covariance t) (to_xyah d))
    as [m c] eqn:Ek.
  cbn [alloc fst snd].
  match goal with |- context [to_center ?s0 ?t0] =>
    destruct (to_center_spec s0 t0 (get_ltwh d) eq_refl)
      as [st' [p [E [Hp [Hv Hpr]]]]] end.
  rewrite E. cbn [fst snd hits time_since_update age features latest_feature
    original_ltwh det_class det_conf instance_mask others trajectory mean].
  assert (Hpr0 : preserves st st') by
    (apply (preserves_trans _ (st ++ [m])); [apply preserves_alloc | exact Hpr]).
  repeat split; try reflexivity.
  - exists p. split; [reflexivity|]. rewrite Hv, load_app_l by exact Hl.
    reflexivity.
  - rewrite (preserves_load _ _ _ Hpr) by (rewrite length_app; cbn; lia).
    apply load_app_last.
  - exact Hpr0.
Qed.

Lemma count_predicts_app (ops : list OpT) (op : OpT) :
  count_predicts (ops ++ [op]) =
  count_predicts ops + match op with OpPredict => 1 | _ => 0 end.
Proof.
  induction ops as [|o ops IH]; [destruct op; cbn; lia|].
  destruct o; cbn [app count_predicts]; rewrite IH; lia.
Qed.

(** The counters and the two histories across one call. *)
Lemma step_counters (kf : KFT) (s : store num * TrackT) (op : OpT) :
  let t := snd s in
  let t' := snd (step kf s op) in
  match op with
  | OpPredict =>
      hits t' = hits t /\ age t' = age t + 1
      /\ time_since_update t' = time_since_update t + 1
      /\ features t' = features t /\ trajectory t' = trajectory t
  | OpUpdate d =>
      hits t' = hits t + 1 /\ age t' = age t /\ time_since_update t' = 0
      /\ features t' = features t ++ [feature d]
      /\ exists p, trajectory t' = trajectory t ++ [p]
  | OpMarkMissed =>
      hits t' = hits t /\ age t' = age t
      /\ time_since_update t' = time_since_update t
      /\ features t' = features t /\ trajectory t' = trajectory t
  end.
Proof.
  destruct s as [st t]. destruct op as [|d|]; cbn [step snd].
  - unfold predict. destruct (kf_predict kf (load st (mean t)) (covariance t)).
    cbn. repeat split.
  - unfold update.
    destruct (kf_update kf (load st (mean t)) (covariance t) (to_xyah d))
      as [m c].
    cbn [alloc fst snd].
    match goal with |- context [to_center ?s0 ?t0] =>
      destruct (to_center_spec s0 t0 (get_ltwh d) eq_refl)
        as [st' [p [E _]]] end.
    rewrite E. cbn. repeat split; eauto.
  - repeat split.
Qed.

Lemma init_track_counters (st : store num) (m : loc) (c : cov)
    (id ni ma : Z) (f : option feat) (o : option loc) (dc : option cls)
    (dcf : option conf) (im : option mask) (oth : option extra) :
  let t := snd (init_track st m c id ni ma f o dc dcf im oth) in
  hits t = 1 /\ age t = 1 /\ time_since_update t = 0
  /\ length (features t) = (if f then 1 else 0)%nat
  /\ length (trajectory t) = (if o then 1 else 0)%nat.
Proof.
  unfold init_track. destruct o as [o|].
  - match goal with |- context [to_center st ?t0] =>
      destruct (to_center_spec st t0 o eq_refl) as [st' [p [E _]]] end.
    rewrite E. cbn. destruct f; repeat split.
  - cbn. destruct f; repeat split.
Qed.

Lemma step_preserves (kf : KFT) (s : store num * TrackT) (op : OpT) :
  preserves (fst s) (fst (step kf s op)).
Proof.
  destruct s as [st t]. destruct op as [|d|]; cbn [step fst].
  - unfold predict. destruct (kf_predict kf (load st (mean t)) (covariance t)).
    apply preserves_alloc.
  - unfold update.
    destruct (kf_update kf (load st (mean t)) (covariance t) (to_xyah d))
      as [m c].
    cbn [alloc fst snd].
    match goal with |- context [to_center ?s0 ?t0] =>
      destruct (to_center_spec s0 t0 (get_ltwh d) eq_refl)
        as [st' [p [E [_ [_ Hpr]]]]] end.
    rewrite E. cbn [fst].
    apply (preserves_trans _ (st ++ [m])); [apply preserves_alloc | exact Hpr].
  - apply preserves_refl.
Qed.

(** X: started from [__init__], [hits] counts the updates plus one, [age]
    the predictions plus one, [time_since_update] lies between 0 and the
    number of predictions and stays below [age]; [features] holds one entry
    per update (plus the initial feature, if given) and [trajectory] one
    point per update (plus the initial box's centre, if given), so neither
    is longer than [hits]. *)
Theorem run_counters (kf : KFT) (st : store num) (m : loc) (c : cov)
    (id ni ma : Z) (f : option feat) (o : option loc) (dc : option cls)
    (dcf : option conf) (im : option mask) (oth : option extra)
    (ops : list OpT) :
  let t := snd (run kf (init_track st m c id ni ma f o dc dcf im oth) ops) in
  hits t = 1 + count_updates ops
  /\ age t = 1 + count_predicts ops
  /\ 0 <= time_since_update t <= count_predicts ops
  /\ time_since_update t < age t
  /\ Z.of_nat (length (features t)) = count_updates ops + (if f then 1 else 0)
  /\ Z.of_nat (length (trajectory t)) = count_updates ops + (if o then 1 else 0)
  /\ Z.of_nat (length (features t)) <= hits t
  /\ Z.of_nat (length (trajectory t)) <= hits t.
Proof.
  cbv zeta.
  assert (Hcnt : forall ops : list OpT, 0 <= count_updates ops /\ 0 <= count_predicts ops).
  { induction ops0 as [|op ops0 IH]; [cbn; lia|]. destruct op; cbn; lia. }
  enough (E : let t := snd (run kf (init_track st m c id ni ma f o dc dcf im oth) ops) in
     hits t = 1 + count_updates ops
     /\ age t = 1 + count_predicts ops
     /\ 0 <= time_since_update t <= count_predicts ops
     /\ Z.of_nat (length (features t)) = count_updates ops + (if f then 1 else 0)
     /\ Z.of_nat (length (trajectory t)) = count_updates ops + (if o then 1 else 0)).
  { cbv zeta in E. destruct E as [E1 [E2 [E3 [E4 E5]]]].
    rewrite E1, E2, E4, E5. destruct (Hcnt ops).
    repeat split; try lia; destruct f; try lia; destruct o; lia. }
  induction ops as [|op ops IH] using rev_ind.
  - destruct (init_track_counters st m c id ni ma f o dc dcf im oth)
      as [H1 [H2 [H3 [H4 H5]]]].
    cbn [run fold_left count_updates count_predicts].
    rewrite H1, H2, H3, H4, H5. destruct f, o; cbn; lia.
  - rewrite run_app, count_updates_app, count_predicts_app. cbn [run fold_left].
    pose proof (step_counters kf (run kf (init_track st m c id ni ma f o dc dcf im oth) ops) op)
      as Hs.
    cbv zeta in IH, Hs |- *.
    destruct IH as [I1 [I2 [I3 [I4 I5]]]].
    destruct op as [|d|].
    + destruct Hs as [S1 [S2 [S3 [S4 S5]]]].
      rewrite S1, S2, S3, S4, S5. lia.
    + destruct Hs as [S1 [S2 [S3 [S4 [p S5]]]]].
      rewrite S1, S2, S3, S4, S5, !length_app. cbn [length].
      destruct (Hcnt ops). lia.
    + destruct Hs as [S1 [S2 [S3 [S4 S5]]]].
      rewrite S1, S2, S3, S4, S5. lia.
Qed.

(** X: [features] and [trajectory] are append-only: whatever calls follow,
    the lists a track holds now are prefixes of the lists it holds later. *)
Theorem histories_append_only (kf : KFT) (s : store num * TrackT)
    (ops : list OpT) :
  features (snd s) `prefix_of` features (snd (run kf s ops))
  /\ trajectory (snd s) `prefix_of` trajectory (snd (run kf s ops)).
Proof.
  revert s. induction ops as [|op ops IH]; intros s; cbn [run fold_left].
  - split; reflexivity.
  - destruct (IH (step kf s op)) as [IH1 IH2]. unfold run in IH1, IH2.
    pose proof (step_counters kf s op) as Hs. cbv zeta in Hs.
    destruct op as [|d|].
    + destruct Hs as [_ [_ [_ [S4 S5]]]]. rewrite <- S4, <- S5 at 1.
      split; assumption.
    + destruct Hs as [_ [_ [_ [S4 [p S5]]]]].
      split; (eapply transitivity; [|eassumption]);
        [rewrite S4 | rewrite S5]; apply prefix_app_r; reflexivity.
    + destruct Hs as [_ [_ [_ [S4 S5]]]]. rewrite <- S4, <- S5 at 1.
      split; assumption.
Qed.

(** X: no [predict], [update] or [mark_missed] call changes an array that
    already exists: the filter's new mean, the matched box and the new
    trajectory point are fresh arrays, so every trajectory point and every
    earlier box keeps its coordinates. *)
Theorem run_preserves_arrays (kf : KFT) (s : store num * TrackT)
    (ops : list OpT) :
  preserves (fst s) (fst (run kf s ops)).
Proof.
  revert s. induction ops as [|op ops IH]; intros s; cbn [run fold_left].
  - apply preserves_refl.
  - eapply preserves_trans; [apply step_preserves | apply IH].
Qed.

Lemma max_age_step (kf : KFT) (s : store num * TrackT) (op : OpT) :
  max_age (snd (step kf s op)) = max_age (snd s).
Proof.
  destruct s as [st t]; destruct op as [|d|]; cbn [step].
  - unfold predict. destruct (kf_predict kf (load st (mean t)) (covariance t)).
    reflexivity.
  - unfold update.
    destruct (kf_update kf (load st (mean t)) (covariance t) (to_xyah d)).
    cbn [alloc fst snd].
    match goal with |- context [to_center ?s0 ?t0] =>
      destruct (to_center s0 t0) as [[? ?]|] end; reflexivity.
  - reflexivity.
Qed.

Lemma max_age_run (kf : KFT) (s : store num * TrackT) (ops : list OpT) :
  max_age (snd (run kf s ops)) = max_age (snd s).
Proof.
  revert s. induction ops as [|op ops IH]; intros s; [reflexivity|].
  cbn [run fold_left]. unfold run in IH. rewrite IH. apply max_age_step.
Qed.

(** X: a Confirmed track just updated ([time_since_update = 0]) and then
    left unmatched for [k] cycles (each a [predict] followed by
    [mark_missed]) has [time_since_update = k]; it is still Confirmed while
    [k <= max_age] and Deleted from cycle [max_age + 1] on. *)
Theorem confirmed_survives_max_age_misses (kf : KFT) (s : store num * TrackT)
    (k : nat) :
  state (snd s) = Confirmed -> time_since_update (snd s) = 0 ->
  0 <= max_age (snd s) ->
  time_since_update (snd (run kf s (miss_rounds k))) = Z.of_nat k
  /\ state (snd (run kf s (miss_rounds k)))
     = if Z.of_nat k <=? max_age (snd s) then Confirmed else Deleted.
Proof.
  intros Hc Ht Hm. induction k as [|k IH].
  - cbn [miss_rounds run fold_left]. rewrite Ht, Hc.
    change (Z.of_nat 0) with 0.
    destruct (Z.leb_spec 0 (max_age (snd s))); [|lia].
    split; reflexivity.
  - cbn [miss_rounds]. rewrite run_app. cbn [run fold_left].
    pose proof (max_age_run kf s (miss_rounds k)) as Hma.
    destruct (run kf s (miss_rounds k)) as [st t] eqn:Er.
    cbn [snd] in IH, Hma. destruct IH as [IHt IHs].
    pose proof (step_counters kf (st, t) OpPredict) as Hp. cbv zeta in Hp.
    destruct Hp as [_ [_ [Hp _]]].
    pose proof (state_predict kf st t) as Hps.
    pose proof (max_age_step kf (st, t) OpPredict) as Hm1.
    cbn [step] in Hp, Hps, Hm1 |- *.
    destruct (predict kf st t) as [st1 t1]. cbn [snd] in Hp, Hps, Hm1 |- *.
    rewrite Hma in Hm1.
    cbn [step snd]. unfold mark_missed. cbn [time_since_update state].
    split; [rewrite Hp, IHt; lia|].
    rewrite Hps, IHs, Hp, IHt, Hm1.
    destruct (Z.leb_spec (Z.of_nat k) (max_age (snd s)));
      destruct (Z.leb_spec (Z.of_nat (S k)) (max_age (snd s)));
      destruct (Z.gtb_spec (Z.of_nat k + 1) (max_age (snd s)));
      cbn; try reflexivity; lia.
Qed.

Lemma update_original (kf : KFT) (d : DetT) (st : store num) (t : TrackT) :
  original_ltwh (snd (update kf d st t)) = Some (get_ltwh d).
Proof.
  unfold update.
  destruct (kf_update kf (load st (mean t)) (covariance t) (to_xyah d)).
  cbn [alloc fst snd].
  match goal with |- context [to_center ?s0 ?t0] =>
    destruct (to_center s0 t0) as [[? ?]|] end; reflexivity.
Qed.

(** X: in the cycle a track is matched, [to_ltwh(orig=True)] returns a new
    array holding the coordinates the detection's box had when [update] was
    called (whatever [orig_strict]); after the next [predict] the original
    box is gone and [to_ltwh(orig=True, orig_strict=True)] returns [None]. *)
Theorem original_box_only_in_matched_cycle (kf : KFT) (d : DetT)
    (st : store num) (t : TrackT) (strict : bool) :
  (get_ltwh d < length st)%nat ->
  let s := update kf d st t in
  (exists r, snd (to_ltwh (fst s) (snd s) true strict) = Some r
     /\ r <> get_ltwh d
     /\ load (fst (to_ltwh (fst s) (snd s) true strict)) r = load st (get_ltwh d))
  /\ let s2 := predict kf (fst s) (snd s) in
     to_ltwh (fst s2) (snd s2) true true = (fst s2, None).
Proof.
  intros Hl s.
  pose proof (step_preserves kf (st, t) (OpUpdate d)) as Hp.
  pose proof (update_original kf d st t) as Ho.
  cbn [step fst] in Hp. fold s in Hp, Ho.
  split.
  - unfold to_ltwh. rewrite Ho. unfold alloc. cbn [fst snd].
    pose proof (preserves_length _ _ Hp) as Hlen.
    exists (length (fst s)). split; [reflexivity|]. split; [lia|].
    rewrite load_app_last. apply (preserves_load _ _ _ Hp Hl).
  - cbv zeta. unfold predict.
    destruct (kf_predict kf (load (fst s) (mean (snd s))) (covariance (snd s))).
    reflexivity.
Qed.

Lemma Forall_removelast {A : Type} (P : A -> Prop) (l : list A) :
  Forall P l -> Forall P (removelast l).
Proof.
  induction l as [|x l IH]; intros Hf; [constructor|].
  inversion Hf; subst. destruct l as [|y l]; [constructor|].
  cbn [removelast]. constructor; [assumption | apply IH; assumption].
Qed.

Lemma length_removelast {A : Type} (l : list A) :
  length (removelast l) = (length l - 1)%nat.
Proof.
  induction l as [|x l IH]; [reflexivity|].
  destruct l as [|y l]; [reflexivity|].
  cbn [removelast length] in *. rewrite IH. lia.
Qed.

Lemma Forall_zip_with {A B C : Type} (P : A -> Prop) (R : B -> Prop)
    (Q : C -> Prop) (f : A -> B -> C) (l : list A) (k : list B) :
  (forall x y, P x -> R y -> Q (f x y)) ->
  Forall P l -> Forall R k -> Forall Q (zip_with f l k).
Proof.
  intros Hf Hl. revert k. induction Hl as [|x l Hx Hl IH]; intros k Hk;
    [constructor|].
  destruct k as [|y k]; [constructor|]. inversion Hk; subst.
  cbn. constructor; [apply Hf; assumption | apply IH; assumption].
Qed.

Section Velocity.
Context `{Kin num}.

(** X: with at least two trajectory points of two coordinates each,
    [get_velocity] returns one magnitude and one direction per consecutive
    pair of points ([len(trajectory) - 1] of each), every direction has two
    coordinates, and the average is [np.mean] of the magnitudes. *)
Theorem get_velocity_shapes (st : store num) (t : TrackT) (fps : num) :
  (2 <= length (trajectory t))%nat ->
  Forall (fun p => length (load st p) = 2%nat) (trajectory t) ->
  exists mags dirs,
    get_velocity st t fps = (Some (nmean mags), Some mags, Some dirs)
    /\ length mags = (length (trajectory t) - 1)%nat
    /\ length dirs = (length (trajectory t) - 1)%nat
    /\ Forall (fun v => length v = 2%nat) dirs.
Proof.
  intros Hl Hf. unfold get_velocity.
  assert (Hb : (length (trajectory t) <? 2)%nat = false) by (apply Nat.ltb_ge; lia).
  rewrite Hb.
  set (rows := map (load st) (trajectory t)).
  assert (Hr : Forall (fun r => length r = 2%nat) rows).
  { unfold rows. apply Forall_map. exact Hf. }
  assert (Hlr : length rows = length (trajectory t)) by apply length_map.
  set (vel := zip_with _ (tail rows) (removelast rows)).
  assert (Hv : Forall (fun v => length v = 2%nat) vel).
  { unfold vel. apply (Forall_zip_with (fun r => length r = 2%nat)
      (fun r => length r = 2%nat)).
    - intros x y Hx Hy. rewrite length_map, length_zip_with. lia.
    - destruct rows as [|r rows']; [constructor|]. cbn. inversion Hr; assumption.
    - apply Forall_removelast. exact Hr. }
  assert (Hlv : length vel = (length (trajectory t) - 1)%nat).
  { unfold vel. rewrite length_zip_with, length_removelast.
    destruct rows as [|r rows']; cbn [tail length] in *; lia. }
  eexists _, _. split; [reflexivity|].
  rewrite length_map, length_zip_with, length_map.
  split; [exact Hlv|]. split; [lia|].
  apply (Forall_zip_with (fun v => length v = 2%nat) (fun _ => True)).
  - intros x y Hx _. rewrite length_map. exact Hx.
  - exact Hv.
  - apply Forall_forall. intros; exact I.
Qed.

End Velocity.

End MoreFacts.

(** * The further properties at concrete inputs *)

(** [update] on [new0] with the detection box at [1]. *)
Lemma update_spec_witness :
  time_since_update (snd (update kf0 (det0 None) (fst (new0 None)) (snd (new0 None))))
  = 0%Z.
Proof.
  assert (Hl : (get_ltwh (det0 None) < length (fst (new0 None)))%nat)
    by (vm_compute; lia).
  exact (proj1 (proj2 (update_spec kf0 (det0 None) (fst (new0 None))
                        (snd (new0 None)) Hl))).
Defined.

(** [confirmed0] ([max_age = 2]) is Deleted in the third unmatched cycle. *)
Lemma confirmed_survives_max_age_misses_witness :
  state (snd (run kf0 confirmed0 (miss_rounds 3))) = Deleted.
Proof.
  destruct (confirmed_survives_max_age_misses kf0 confirmed0 3) as [_ E].
  - vm_compute. reflexivity.
  - vm_compute. reflexivity.
  - vm_compute. discriminate.
  - rewrite E. vm_compute. reflexivity.
Defined.

(** [update] on [new0] with the detection box [(10, 20, 7, 5)] at [1]. *)
Lemma original_box_only_in_matched_cycle_witness :
  exists r,
    snd (to_ltwh (fst (update kf0 (det0 None) (fst (new0 None)) (snd (new0 None))))
                 (snd (update kf0 (det0 None) (fst (new0 None)) (snd (new0 None))))
                 true true) = Some r
    /\ r <> 1%nat
    /\ load (fst (to_ltwh (fst (update kf0 (det0 None) (fst (new0 None)) (snd (new0 None))))
                 (snd (update kf0 (det0 None) (fst (new0 None)) (snd (new0 None))))
                 true true)) r = load (fst (new0 None)) 1.
Proof.
  assert (Hl : (get_ltwh (det0 None) < length (fst (new0 None)))%nat)
    by (vm_compute; lia).
  exact (proj1 (original_box_only_in_matched_cycle kf0 (det0 None)
                  (fst (new0 None)) (snd (new0 None)) true Hl)).
Defined.

(** The three points of [confirmed0]'s trajectory give two velocities. *)
Lemma get_velocity_shapes_witness :
  exists mags dirs,
    get_velocity (fst confirmed0) (snd confirmed0) 5%float
    = (Some (nmean mags), Some mags, Some dirs)
    /\ length mags = 2%nat /\ length dirs = 2%nat
    /\ Forall (fun v => length v = 2%nat) dirs.
Proof.
  destruct (get_velocity_shapes (fst confirmed0) (snd confirmed0) 5%float)
    as [mags [dirs [E [L1 [L2 F]]]]].
  - vm_compute. lia.
  - vm_compute. repeat constructor.
  - exists mags, dirs. split; [exact E|].
    assert (Hn : length (trajectory (snd confirmed0)) = 3%nat) by reflexivity.
    rewrite Hn in L1, L2. split; [exact L1|]. split; [exact L2 | exact F].
Defined.
